(** * pax: saving and loading pytrees to an HDF5 file

    A shallow embedding of [jax/experimental/pax.py].  The Python values the
    module walks are the inductive type [pyval]; the HDF5 file it writes is
    the tree [h5node] of datasets and groups; exceptions are the type [exn].
    [_savetree] threads the group it mutates and returns it together with the
    exception that interrupted it, if any; [_loadtree] only reads and returns
    a [result]. *)

From Stdlib Require Import String Ascii List Bool Arith NArith Lia.
From Stdlib Require Import DecimalString DecimalNat DecimalFacts.
From Stdlib Require Import Sorting.Sorted Sorting.Permutation.
From Stdlib Require OrderedTypeEx.
Import ListNotations.
Local Open Scope string_scope.
Local Open Scope list_scope.

Set Implicit Arguments.
Set Warnings "-register-all".


(** ** Python values *)

(** A numeric numpy array: element type, shape and the raw bytes of its
    elements.  h5py stores such an array as it is and [np.array] reads it
    back as it was stored. *)
Record ndarray := mk_ndarray {
  dtype : string;
  shape : list nat;
  buffer : list Byte.byte }.

(** The values [save] can be handed.  A dict keeps its items in insertion
    order and remembers its concrete class ([dict], or a subclass such as
    [OrderedDict]); a namedtuple carries its type name and its fields in
    declaration order; [PObject] is any other object, known by the name of
    its type ([str], [float], [NoneType], ...). *)
Inductive pyval :=
| PArray (data : ndarray)
| PList (elems : list pyval)
| PTuple (elems : list pyval)
| PNamedTuple (typename : string) (fields : list (string * pyval))
| PDict (cls : string) (items : list (string * pyval))
| PObject (typename : string).

(** [type(tree).__name__] *)
Definition type_name (tree : pyval) : string :=
  match tree with
  | PArray _ => "ndarray"
  | PList _ => "list"
  | PTuple _ => "tuple"
  | PNamedTuple n _ => n
  | PDict c _ => c
  | PObject n => n
  end.

(** ** Exceptions *)

Inductive exn :=
| UnrecognizedType (typename : string)  (* ValueError raised by [_savetree] *)
| NameExists (name : string)            (* ValueError of h5py: link name taken *)
| InvalidName (name : string)           (* ValueError of collections.namedtuple *)
| TypeError (msg : string)
| KeyError (key : string)
| FileNotFound (filepath : string).     (* OSError of h5py.File(..., 'r') *)

Inductive result (A : Type) :=
| Ok (a : A)
| Raise (e : exn).
Arguments Ok {A} a.
Arguments Raise {A} e.

Definition bind {A B} (r : result A) (k : A -> result B) : result B :=
  match r with
  | Ok a => k a
  | Raise e => Raise e
  end.

(** Forcing a lazy sequence of computations: the first exception wins. *)
Fixpoint force {A} (rs : list (result A)) : result (list A) :=
  match rs with
  | [] => Ok []
  | r :: rest => bind r (fun a => bind (force rest) (fun l => Ok (a :: l)))
  end.

(** ** The HDF5 file *)

(** A node is a dataset or a group; both own an attribute table.  The links
    of a group are listed in the order in which h5py iterates over them. *)
Inductive h5node :=
| Dataset (attrs : list (string * string)) (data : ndarray)
| Group (attrs : list (string * string)) (links : list (string * h5node)).

Section Assoc.
Context {A : Type}.

Fixpoint assoc (key : string) (l : list (string * A)) : option A :=
  match l with
  | [] => None
  | (k, a) :: rest => if k =? key then Some a else assoc key rest
  end.

(** [d[key] = a]: an existing key keeps its place, a new one goes last. *)
Fixpoint assoc_set (key : string) (a : A) (l : list (string * A)) : list (string * A) :=
  match l with
  | [] => [(key, a)]
  | (k, b) :: rest =>
      if k =? key then (k, a) :: rest else (k, b) :: assoc_set key a rest
  end.

(** h5py opens files with [track_order] off, so HDF5 indexes the links of a
    group by name: a new link takes its place in increasing byte order of
    the names, whatever the order of creation. *)
Fixpoint link_insert (name : string) (a : A) (l : list (string * A)) : list (string * A) :=
  match l with
  | [] => [(name, a)]
  | (k, b) :: rest =>
      if name <? k then (name, a) :: l else (k, b) :: link_insert name a rest
  end.

(** Replacing the node a link points to. *)
Fixpoint link_update (name : string) (a : A) (l : list (string * A)) : list (string * A) :=
  match l with
  | [] => []
  | (k, b) :: rest =>
      if k =? name then (k, a) :: rest else (k, b) :: link_update name a rest
  end.

Definition keys (l : list (string * A)) : list string := map fst l.
Definition values (l : list (string * A)) : list A := map snd l.
End Assoc.

(** [dict(pairs)] *)
Definition dict_of_pairs {A} (pairs : list (string * A)) : list (string * A) :=
  fold_left (fun d kv => assoc_set (fst kv) (snd kv) d) pairs [].

Definition empty_group : h5node := Group [] [].

(** [group.create_dataset(name, data=data)] *)
Definition create_dataset (group : h5node) (name : string) (data : ndarray)
  : h5node * option exn :=
  match group with
  | Dataset _ _ => (group, Some (TypeError "create_dataset"))
  | Group attrs links =>
      match assoc name links with
      | Some _ => (group, Some (NameExists name))
      | None => (Group attrs (link_insert name (Dataset [] data) links), None)
      end
  end.

(** [group.create_group(name)]: the group with the new link, and the new
    (empty) subgroup. *)
Definition create_group (group : h5node) (name : string)
  : h5node * result h5node :=
  match group with
  | Dataset _ _ => (group, Raise (TypeError "create_group"))
  | Group attrs links =>
      match assoc name links with
      | Some _ => (group, Raise (NameExists name))
      | None => (Group attrs (link_insert name empty_group links), Ok empty_group)
      end
  end.

(** [node.attrs[key] = value] *)
Definition attrs_set (node : h5node) (key value : string) : h5node :=
  match node with
  | Dataset attrs data => Dataset (assoc_set key value attrs) data
  | Group attrs links => Group (assoc_set key value attrs) links
  end.

Definition node_links (node : h5node) : list (string * h5node) :=
  match node with
  | Dataset _ _ => []
  | Group _ links => links
  end.

(** The subgroup handed out by [create_group] is the very object linked in
    its parent: what is written through it shows in the parent.  [commit]
    stores the subgroup's current state back under its link. *)
Definition commit (group : h5node) (name : string) (subgroup : h5node) : h5node :=
  match group with
  | Dataset _ _ => group
  | Group attrs links => Group attrs (link_update name subgroup links)
  end.

(** ** [_savetree] *)

(** [f'arr{k}'] *)
Definition arr (k : nat) : string :=
  "arr" ++ NilZero.string_of_uint (Nat.to_uint k).

Section Loops.
Variable body : pyval -> h5node -> string -> h5node * option exn.

(** [for k, subtree in d.items(): body(subtree, subgroup, k)] *)
Fixpoint for_items (items : list (string * pyval)) (subgroup : h5node)
  : h5node * option exn :=
  match items with
  | [] => (subgroup, None)
  | (k, subtree) :: rest =>
      match body subtree subgroup k with
      | (subgroup', None) => for_items rest subgroup'
      | (subgroup', Some e) => (subgroup', Some e)
      end
  end.

(** [for k, subtree in enumerate(tree): body(subtree, subgroup, f'arr{k}')],
    counting from [k]. *)
Fixpoint for_enumerate (k : nat) (elems : list pyval) (subgroup : h5node)
  : h5node * option exn :=
  match elems with
  | [] => (subgroup, None)
  | subtree :: rest =>
      match body subtree subgroup (arr k) with
      | (subgroup', None) => for_enumerate (S k) rest subgroup'
      | (subgroup', Some e) => (subgroup', Some e)
      end
  end.
End Loops.

(** The pairs [(f'arr{k}', subtree)] that the loop over [enumerate(tree)]
    goes through, counting from [k]. *)
Fixpoint enumerate_from {A} (k : nat) (elems : list A) : list (string * A) :=
  match elems with
  | [] => []
  | subtree :: rest => (arr k, subtree) :: enumerate_from (S k) rest
  end.

Fixpoint _savetree (tree : pyval) (group : h5node) (name : string) {struct tree}
  : h5node * option exn :=
  match tree with
  | PArray data => create_dataset group name data
  | _ =>
      match create_group group name with
      | (group, Raise e) => (group, Some e)
      | (group, Ok subgroup) =>
          let subgroup := attrs_set subgroup "type" (type_name tree) in
          let '(subgroup, raised) :=
            match tree with
            | PNamedTuple _ fields => for_items _savetree fields subgroup
            | PTuple elems | PList elems =>
                for_enumerate _savetree 0 elems subgroup
            | PDict _ items => for_items _savetree items subgroup
            | _ => (subgroup, Some (UnrecognizedType (type_name tree)))
            end in
          (commit group name subgroup, raised)
      end
  end.

(** ** [_loadtree] *)

(** *** [collections.namedtuple]

    Type and field names must be identifiers and no keywords; a field name
    must not start with an underscore nor come twice.  Identifiers are
    modelled for ASCII names: a letter or underscore, then letters, digits
    and underscores. *)

Definition between (lo hi : N) (c : ascii) : bool :=
  (lo <=? N_of_ascii c)%N && (N_of_ascii c <=? hi)%N.

Definition is_letter (c : ascii) : bool :=
  between 65 90 c || between 97 122 c || Ascii.eqb c "_".

Definition is_digit (c : ascii) : bool := between 48 57 c.

Fixpoint all_chars (p : ascii -> bool) (s : string) : bool :=
  match s with
  | EmptyString => true
  | String c rest => p c && all_chars p rest
  end.

(** [str.isidentifier] *)
Definition isidentifier (s : string) : bool :=
  match s with
  | EmptyString => false
  | String c rest => is_letter c && all_chars (fun c => is_letter c || is_digit c) rest
  end.

Definition kwlist : list string :=
  ["False"; "None"; "True"; "and"; "as"; "assert"; "async"; "await"; "break";
   "class"; "continue"; "def"; "del"; "elif"; "else"; "except"; "finally";
   "for"; "from"; "global"; "if"; "import"; "in"; "is"; "lambda"; "nonlocal";
   "not"; "or"; "pass"; "raise"; "return"; "try"; "while"; "with"; "yield"].

Definition mem (s : string) (l : list string) : bool :=
  existsb (String.eqb s) l.

(** [keyword.iskeyword] *)
Definition iskeyword (s : string) : bool := mem s kwlist.

Definition startswith_underscore (s : string) : bool :=
  match s with
  | String c _ => Ascii.eqb c "_"
  | EmptyString => false
  end.

(** The first loop of [namedtuple]: every name, the type name first. *)
Fixpoint check_names (names : list string) : option exn :=
  match names with
  | [] => None
  | name :: rest =>
      if negb (isidentifier name) then Some (InvalidName name)
      else if iskeyword name then Some (InvalidName name)
      else check_names rest
  end.

(** The second loop of [namedtuple]: the field names, with the set [seen]. *)
Fixpoint check_fields (seen : list string) (field_names : list string) : option exn :=
  match field_names with
  | [] => None
  | name :: rest =>
      if startswith_underscore name then Some (InvalidName name)
      else if mem name seen then Some (InvalidName name)
      else check_fields (name :: seen) rest
  end.

(** [collections.namedtuple(typename, field_names)]: the class, as the
    function from the positional arguments to the instance. *)
Definition namedtuple (typename : string) (field_names : list string)
  : result (list pyval -> result pyval) :=
  match check_names (typename :: field_names) with
  | Some e => Raise e
  | None =>
      match check_fields [] field_names with
      | Some e => Raise e
      | None =>
          Ok (fun args =>
                if Nat.eqb (List.length args) (List.length field_names)
                then Ok (PNamedTuple typename (combine field_names args))
                else Raise (TypeError typename))
      end
  end.

Fixpoint _loadtree (leaf : h5node) : result pyval :=
  match leaf with
  | Dataset _ data => Ok (PArray data)
  | Group attrs links =>
      match assoc "type" attrs with
      | None => Raise (KeyError "type")
      | Some leaf_type =>
          let values := map (fun link => _loadtree (snd link)) links in
          if leaf_type =? "dict" then
            bind (force values) (fun vs =>
            Ok (PDict "dict" (dict_of_pairs (combine (keys links) vs))))
          else if leaf_type =? "list" then
            bind (force values) (fun vs => Ok (PList vs))
          else if leaf_type =? "tuple" then
            bind (force values) (fun vs => Ok (PTuple vs))
          else
            bind (namedtuple leaf_type (keys links)) (fun cls =>
            bind (force values) cls)
      end
  end.

(** ** [save] and [load] *)

(** The files on disk, by path. *)
Definition filesystem := list (string * h5node).

Definition write_file (fs : filesystem) (filepath : string) (f : h5node) : filesystem :=
  assoc_set filepath f fs.

(** The two modes the module opens files in: ['r'] and ['w']. *)
Inductive mode := mode_r | mode_w.

(** [h5py.File(filepath, mode)]: ['w'] creates the file or truncates it,
    ['r'] opens an existing file and fails when there is none. *)
Definition File (fs : filesystem) (filepath : string) (m : mode)
  : filesystem * result h5node :=
  match m with
  | mode_w => (write_file fs filepath empty_group, Ok empty_group)
  | mode_r =>
      match assoc filepath fs with
      | Some f => (fs, Ok f)
      | None => (fs, Raise (FileNotFound filepath))
      end
  end.

(** Leaving the [with] block: a file open for writing is flushed, a file
    open for reading is left as it was. *)
Definition close (fs : filesystem) (filepath : string) (m : mode) (f : h5node)
  : filesystem :=
  match m with
  | mode_w => write_file fs filepath f
  | mode_r => fs
  end.

(** Modelled from the spec: [jax.device_get], which is not in this module.
    It "drains any deferred/device-resident array values into plain host
    memory" and leaves the shape of the tree alone.  The leaves of [pyval]
    are host data already, so every leaf comes back with the same contents. *)
Fixpoint device_get (tree : pyval) : pyval :=
  match tree with
  | PArray data => PArray (mk_ndarray (dtype data) (shape data) (buffer data))
  | PList elems => PList (map device_get elems)
  | PTuple elems => PTuple (map device_get elems)
  | PNamedTuple n fields =>
      PNamedTuple n (map (fun kv => (fst kv, device_get (snd kv))) fields)
  | PDict c items =>
      PDict c (map (fun kv => (fst kv, device_get (snd kv))) items)
  | PObject n => PObject n
  end.

Definition save (fs : filesystem) (filepath : string) (tree : pyval)
  : filesystem * option exn :=
  match File fs filepath mode_w with
  | (fs, Raise e) => (fs, Some e)
  | (fs, Ok f) =>
      let '(f, raised) := _savetree (device_get tree) f "pytree" in
      (close fs filepath mode_w f, raised)
  end.

(** [f[name]] *)
Definition getitem (f : h5node) (name : string) : result h5node :=
  match assoc name (node_links f) with
  | Some node => Ok node
  | None => Raise (KeyError name)
  end.

Definition load (fs : filesystem) (filepath : string)
  : filesystem * result pyval :=
  match File fs filepath mode_r with
  | (fs, Raise e) => (fs, Raise e)
  | (fs, Ok f) =>
      let result := bind (getitem f "pytree") _loadtree in
      (close fs filepath mode_r f, result)
  end.

(** [load(filepath)] right after [save(filepath, tree)]. *)
Definition roundtrip (fs : filesystem) (filepath : string) (tree : pyval)
  : result pyval :=
  snd (load (fst (save fs filepath tree)) filepath).

(** ** Classes of trees *)

(** A link name that stands for one link: not empty, not ["."], without
    ["/"] (h5py reads it as a path separator) and without a null byte. *)
Definition plain_name (s : string) : bool :=
  negb (s =? "") && negb (s =? ".")
  && all_chars (fun c => negb (Ascii.eqb c "/") && negb (Ascii.eqb c "000")) s.

Fixpoint nodupb (l : list string) : bool :=
  match l with
  | [] => true
  | x :: rest => negb (mem x rest) && nodupb rest
  end.

(** The trees Python can build and h5py can name: the keys of a dict, and
    the fields of a namedtuple, are distinct plain names. *)
Fixpoint wf (tree : pyval) : bool :=
  match tree with
  | PArray _ | PObject _ => true
  | PList elems | PTuple elems => forallb wf elems
  | PNamedTuple _ items | PDict _ items =>
      forallb plain_name (keys items) && nodupb (keys items)
      && forallb (fun kv => wf (snd kv)) items
  end.

(** Every node is an array or one of the four containers. *)
Fixpoint supported (tree : pyval) : bool :=
  match tree with
  | PArray _ => true
  | PObject _ => false
  | PList elems | PTuple elems => forallb supported elems
  | PNamedTuple _ items | PDict _ items =>
      forallb (fun kv => supported (snd kv)) items
  end.

(** The tags [_loadtree] compares against. *)
Definition reserved (tag : string) : bool := mem tag ["dict"; "list"; "tuple"].

(** A name [collections.namedtuple] takes as a type name, and as a field. *)
Definition valid_typename (n : string) : bool :=
  isidentifier n && negb (iskeyword n).

Definition valid_field (n : string) : bool :=
  isidentifier n && negb (iskeyword n) && negb (startswith_underscore n).

(** Names in increasing order: each one sorts before all the later ones. *)
Fixpoint increasing (names : list string) : bool :=
  match names with
  | [] => true
  | x :: rest => forallb (fun y => x <? y) rest && increasing rest
  end.

(** The trees of the data model: arrays, lists, tuples, namedtuples whose
    type name is a name of their own, and plain dicts. *)
Fixpoint pytree (tree : pyval) : bool :=
  match tree with
  | PArray _ => true
  | PObject _ => false
  | PList elems | PTuple elems => forallb pytree elems
  | PNamedTuple n fields =>
      valid_typename n && negb (reserved n) && forallb valid_field (keys fields)
      && forallb (fun kv => pytree (snd kv)) fields
  | PDict c items =>
      (c =? "dict") && forallb (fun kv => pytree (snd kv)) items
  end.

(** The trees whose children are created in the order of their names: at
    most ten elements in a list or tuple ([arr10] sorts before [arr2]), and
    the fields of a namedtuple declared in increasing order. *)
Fixpoint name_ordered (tree : pyval) : bool :=
  match tree with
  | PArray _ | PObject _ => true
  | PList elems | PTuple elems =>
      (List.length elems <=? 10)%nat && forallb name_ordered elems
  | PNamedTuple _ fields =>
      increasing (keys fields) && forallb (fun kv => name_ordered (snd kv)) fields
  | PDict _ items => forallb (fun kv => name_ordered (snd kv)) items
  end.

(** ** What a successful [_savetree] writes *)

(** The links of a group after creating [pairs] in turn in a group that
    holds [links]. *)
Definition index_links {A} (pairs links : list (string * A)) : list (string * A) :=
  fold_left (fun l kv => link_insert (fst kv) (snd kv) l) pairs links.

Definition map_snd {A B} (f : A -> B) (l : list (string * A)) : list (string * B) :=
  map (fun kv => (fst kv, f (snd kv))) l.

(** The node written for a tree. *)
Fixpoint encode (tree : pyval) : h5node :=
  match tree with
  | PArray data => Dataset [] data
  | PList elems | PTuple elems =>
      Group [("type", type_name tree)]
            (index_links (enumerate_from 0 (map encode elems)) [])
  | PNamedTuple _ items | PDict _ items =>
      Group [("type", type_name tree)]
            (index_links (map (fun kv => (fst kv, encode (snd kv))) items) [])
  | PObject n => Group [("type", n)] []
  end.

(** ** Equality of trees *)


(** The tree [load] gives back for a name-ordered tree: the same tree, with
    the items of every dict in the order of their keys. *)
Fixpoint normalize (tree : pyval) : pyval :=
  match tree with
  | PArray data => PArray data
  | PList elems => PList (map normalize elems)
  | PTuple elems => PTuple (map normalize elems)
  | PNamedTuple n fields =>
      PNamedTuple n (map (fun kv => (fst kv, normalize (snd kv))) fields)
  | PDict c items =>
      PDict c (index_links (map (fun kv => (fst kv, normalize (snd kv))) items) [])
  | PObject n => PObject n
  end.

(** ** Nodes of a file *)

(** All the nodes at and below a node. *)
Fixpoint nodes (node : h5node) : list h5node :=
  node :: match node with
          | Dataset _ _ => []
          | Group _ links => flat_map (fun link => nodes (snd link)) links
          end.


(** [_savetree] on a container: create the subgroup, tag it, run the loop
    on it, and what the loop wrote shows under the link. *)
Definition in_subgroup (group : h5node) (name tag : string)
  (loop : h5node -> h5node * option exn) : h5node * option exn :=
  match create_group group name with
  | (group, Raise e) => (group, Some e)
  | (group, Ok subgroup) =>
      let '(subgroup, raised) := loop (attrs_set subgroup "type" tag) in
      (commit group name subgroup, raised)
  end.

(** What [_savetree] does on a tree it accepts: one new link, to the
    encoding of the tree. *)
Definition writes (body : pyval -> h5node -> string -> h5node * option exn)
  (tree : pyval) : Prop :=
  forall attrs links name,
    assoc name links = None ->
    body tree (Group attrs links) name
    = (Group attrs (link_insert name (encode tree) links), None).

(** What [_savetree] does on a tree with a node it does not recognize. *)
Definition rejects (body : pyval -> h5node -> string -> h5node * option exn)
  (tree : pyval) : Prop :=
  forall attrs links name,
    assoc name links = None ->
    exists n, snd (body tree (Group attrs links) name) = Some (UnrecognizedType n).




(** Arrays used in examples: the scalars [1.0] and [2.0] as [float64], in
    little-endian bytes. *)
Definition float64_scalar (bytes : list Byte.byte) : ndarray :=
  mk_ndarray "float64" [] bytes.

Definition one : ndarray :=
  float64_scalar [Byte.x00; Byte.x00; Byte.x00; Byte.x00; Byte.x00; Byte.x00; Byte.xf0; Byte.x3f].

Definition two : ndarray :=
  float64_scalar [Byte.x00; Byte.x00; Byte.x00; Byte.x00; Byte.x00; Byte.x00; Byte.x00; Byte.x40].

(** The children of a written group, once loaded: same names, and each
    value is what its node loads to. *)
Definition loads_to (written loaded : list (string * pyval)) : Prop :=
  Forall2 (fun kv kv' => fst kv = fst kv'
                         /\ _loadtree (encode (snd kv)) = Ok (snd kv'))
          written loaded.

(** A one-dimensional [uint8] array of [k] ones. *)
Definition ones (k : nat) : ndarray := mk_ndarray "uint8" [k] (repeat Byte.x01 k).

(** The example of the specification: [{'w': [a, b], 'b': c}], here with a
    namedtuple next to it. *)
Definition example_tree : pyval :=
  PDict "dict"
    [("w", PList [PArray (ones 3); PArray (ones 4)]);
     ("b", PArray one);
     ("p", PNamedTuple "Point" [("x", PArray one); ("y", PArray two)])].


(** A list of eleven arrays, of lengths 0 to 10. *)
Definition eleven : pyval := PList (map (fun k => PArray (ones k)) (seq 0 11)).





(** ** The tests of [_savetree] on the type of a tree *)









Section FirstSome.
Context {A B : Type}.
Variable f : A -> option B.

End FirstSome.








(** * Properties *)

(** ** Induction on trees, with the children of a container at hand *)

Lemma pyval_nested_ind (P : pyval -> Prop) :
  (forall data, P (PArray data)) ->
  (forall elems, Forall P elems -> P (PList elems)) ->
  (forall elems, Forall P elems -> P (PTuple elems)) ->
  (forall n fields, Forall (fun kv => P (snd kv)) fields -> P (PNamedTuple n fields)) ->
  (forall c items, Forall (fun kv => P (snd kv)) items -> P (PDict c items)) ->
  (forall n, P (PObject n)) ->
  forall tree, P tree.
Proof.
  intros Harray Hlist Htuple Hnamed Hdict Hobject.
  fix rec 1.
  assert (all_elems : forall elems, Forall P elems).
  { fix go 1. intros [|e rest]; constructor; [apply rec | apply go]. }
  assert (all_items : forall items : list (string * pyval),
             Forall (fun kv => P (snd kv)) items).
  { fix go 1. intros [|[k v] rest]; constructor; [apply rec | apply go]. }
  intros [data|elems|elems|n fields|c items|n].
  - apply Harray.
  - apply Hlist, all_elems.
  - apply Htuple, all_elems.
  - apply Hnamed, all_items.
  - apply Hdict, all_items.
  - apply Hobject.
Qed.

Lemma h5node_nested_ind (P : h5node -> Prop) :
  (forall attrs data, P (Dataset attrs data)) ->
  (forall attrs links, Forall (fun link => P (snd link)) links -> P (Group attrs links)) ->
  forall node, P node.
Proof.
  intros Hdataset Hgroup.
  fix rec 1.
  intros [attrs data|attrs links].
  - apply Hdataset.
  - apply Hgroup. induction links as [|[k n] rest IH]; constructor; [apply rec | exact IH].
Qed.

(** ** Association lists and the name index *)

Section AssocFacts.
Context {A : Type}.
Implicit Types (l : list (string * A)) (a b : A) (k n : string).

Lemma assoc_set_same k a l : assoc k (assoc_set k a l) = Some a.
Proof.
  induction l as [|[k' b] rest IH]; simpl.
  - now rewrite String.eqb_refl.
  - destruct (k' =? k) eqn:E; simpl; rewrite E; auto.
Qed.

Lemma assoc_set_other k n a l : n <> k -> assoc k (assoc_set n a l) = assoc k l.
Proof.
  intros Hne. induction l as [|[k' b] rest IH]; simpl.
  - apply String.eqb_neq in Hne. now rewrite Hne.
  - destruct (k' =? n) eqn:E; simpl.
    + apply String.eqb_eq in E. subst k'.
      apply String.eqb_neq in Hne. now rewrite Hne.
    + now rewrite IH.
Qed.

Lemma assoc_insert_other k n a l :
  n <> k -> assoc k (link_insert n a l) = assoc k l.
Proof.
  intros Hne. induction l as [|[k' b] rest IH]; simpl.
  - apply String.eqb_neq in Hne. now rewrite Hne.
  - destruct (n <? k'); simpl.
    + apply String.eqb_neq in Hne. now rewrite Hne.
    + now rewrite IH.
Qed.

Lemma assoc_insert_fresh k n a l :
  assoc k (link_insert n a l) = None <-> n <> k /\ assoc k l = None.
Proof.
  destruct (String.eqb_spec n k) as [->|Hne].
  - split; [|intros [[] _]; reflexivity].
    intros H. exfalso. induction l as [|[k' b] rest IH]; simpl in H.
    + now rewrite String.eqb_refl in H.
    + destruct (k <? k'); simpl in H.
      * now rewrite String.eqb_refl in H.
      * destruct (k' =? k); [discriminate | auto].
  - rewrite assoc_insert_other by assumption. tauto.
Qed.

Lemma link_update_insert n a b l :
  assoc n l = None -> link_update n b (link_insert n a l) = link_insert n b l.
Proof.
  induction l as [|[k' c] rest IH]; simpl; intros Hfresh.
  - now rewrite String.eqb_refl.
  - destruct (k' =? n) eqn:E; [discriminate|].
    destruct (n <? k'); simpl.
    + now rewrite String.eqb_refl.
    + rewrite E. now rewrite IH.
Qed.


Lemma keys_link_insert k n a l :
  In k (keys (link_insert n a l)) <-> k = n \/ In k (keys l).
Proof.
  induction l as [|[k' b] rest IH]; simpl.
  - intuition.
  - destruct (n <? k'); simpl; [intuition|]. rewrite IH. intuition.
Qed.
End AssocFacts.

Lemma mem_In s l : mem s l = true <-> In s l.
Proof.
  unfold mem. rewrite existsb_exists. split.
  - intros (x & Hin & E). apply String.eqb_eq in E. now subst.
  - intros Hin. exists s. split; [assumption | apply String.eqb_refl].
Qed.

Lemma mem_false s l : mem s l = false <-> ~ In s l.
Proof.
  rewrite <- mem_In. destruct (mem s l); split; congruence.
Qed.

Lemma nodupb_NoDup l : nodupb l = true <-> NoDup l.
Proof.
  induction l as [|x rest IH]; simpl.
  - split; [constructor | reflexivity].
  - rewrite andb_true_iff, negb_true_iff, mem_false, IH.
    split; [intros [? ?]; now constructor | inversion 1; auto].
Qed.

(** ** The names [arr0], [arr1], ... *)

Lemma to_uint_nonnil k : Nat.to_uint k <> Decimal.Nil.
Proof.
  rewrite <- (DecimalNat.Unsigned.of_to k) at 1.
  rewrite DecimalNat.Unsigned.to_of. apply unorm_nonnil.
Qed.

Lemma arr_inj i j : arr i = arr j -> i = j.
Proof.
  unfold arr. simpl. intros [= E].
  apply DecimalNat.Unsigned.to_uint_inj.
  pose proof (NilZero.usu _ (to_uint_nonnil i)) as Hi.
  pose proof (NilZero.usu _ (to_uint_nonnil j)) as Hj.
  congruence.
Qed.

Lemma keys_enumerate_from {A} k (elems : list A) :
  keys (enumerate_from k elems) = map arr (seq k (List.length elems)).
Proof.
  revert k. induction elems as [|e rest IH]; intros k; simpl; [reflexivity|].
  now rewrite <- IH.
Qed.

Lemma NoDup_keys_enumerate {A} k (elems : list A) :
  NoDup (keys (enumerate_from k elems)).
Proof.
  rewrite keys_enumerate_from.
  apply Finite.Injective_map_NoDup; [exact arr_inj | apply seq_NoDup].
Qed.

Lemma enumerate_from_map {A B} (f : A -> B) k (elems : list A) :
  enumerate_from k (map f elems) = map_snd f (enumerate_from k elems).
Proof.
  revert k. induction elems as [|e rest IH]; intros k; simpl; [reflexivity|].
  now rewrite IH.
Qed.

Lemma Forall_enumerate_from {A} (P : A -> Prop) k (elems : list A) :
  Forall P elems -> Forall (fun kv => P (snd kv)) (enumerate_from k elems).
Proof.
  intros H. revert k. induction H; intros k; simpl; constructor; auto.
Qed.

(** ** [_savetree], case by case *)

Lemma _savetree_array data group name :
  _savetree (PArray data) group name = create_dataset group name data.
Proof. reflexivity. Qed.

Lemma _savetree_list elems group name :
  _savetree (PList elems) group name
  = in_subgroup group name "list" (for_enumerate _savetree 0 elems).
Proof. reflexivity. Qed.

Lemma _savetree_tuple elems group name :
  _savetree (PTuple elems) group name
  = in_subgroup group name "tuple" (for_enumerate _savetree 0 elems).
Proof. reflexivity. Qed.

Lemma _savetree_namedtuple n fields group name :
  _savetree (PNamedTuple n fields) group name
  = in_subgroup group name n (for_items _savetree fields).
Proof. reflexivity. Qed.

Lemma _savetree_dict c items group name :
  _savetree (PDict c items) group name
  = in_subgroup group name c (for_items _savetree items).
Proof. reflexivity. Qed.

Lemma _savetree_object n group name :
  _savetree (PObject n) group name
  = in_subgroup group name n (fun subgroup => (subgroup, Some (UnrecognizedType n))).
Proof. reflexivity. Qed.

Lemma in_subgroup_fresh attrs links name tag loop :
  assoc name links = None ->
  in_subgroup (Group attrs links) name tag loop
  = (Group attrs (link_insert name (fst (loop (Group [("type", tag)] []))) links),
     snd (loop (Group [("type", tag)] []))).
Proof.
  intros Hfresh. unfold in_subgroup, create_group. rewrite Hfresh. simpl.
  destruct (loop _) as [subgroup raised]. simpl.
  now rewrite link_update_insert.
Qed.

Lemma for_enumerate_items body k elems subgroup :
  for_enumerate body k elems subgroup
  = for_items body (enumerate_from k elems) subgroup.
Proof.
  revert k subgroup. induction elems as [|e rest IH]; intros k subgroup; simpl.
  - reflexivity.
  - destruct (body e subgroup (arr k)) as [sg [ex|]]; [reflexivity | apply IH].
Qed.

(** ** A successful save writes [encode tree] *)

Lemma for_items_writes body items attrs links :
  Forall (fun kv => writes body (snd kv)) items ->
  NoDup (keys items) ->
  (forall k, In k (keys items) -> assoc k links = None) ->
  for_items body items (Group attrs links)
  = (Group attrs (index_links (map_snd encode items) links), None).
Proof.
  intros Hall. revert links.
  induction Hall as [|[k v] rest Hv _ IH]; intros links Hnodup Hfresh; simpl.
  - reflexivity.
  - inversion Hnodup as [|? ? Hnotin Hrest]; subst.
    simpl in Hv. rewrite (Hv attrs links k) by (apply Hfresh; now left).
    apply IH; [assumption|].
    intros k' Hin. apply assoc_insert_fresh. split.
    + intros <-. now apply Hnotin.
    + apply Hfresh. now right.
Qed.

Lemma Forall_items_impl (Q : pyval -> Prop) (p q : pyval -> bool)
  (items : list (string * pyval)) :
  Forall (fun kv => p (snd kv) = true -> q (snd kv) = true -> Q (snd kv)) items ->
  forallb (fun kv => p (snd kv)) items = true ->
  forallb (fun kv => q (snd kv)) items = true ->
  Forall (fun kv => Q (snd kv)) items.
Proof.
  intros H. induction H as [|kv rest Hkv _ IH]; simpl; intros Hp Hq.
  - constructor.
  - apply andb_true_iff in Hp as [? ?], Hq as [? ?]. constructor; auto.
Qed.

Lemma Forall_elems_impl (Q : pyval -> Prop) (p q : pyval -> bool)
  (elems : list pyval) :
  Forall (fun v => p v = true -> q v = true -> Q v) elems ->
  forallb p elems = true ->
  forallb q elems = true ->
  Forall Q elems.
Proof.
  intros H. induction H as [|v rest Hv _ IH]; simpl; intros Hp Hq.
  - constructor.
  - apply andb_true_iff in Hp as [? ?], Hq as [? ?]. constructor; auto.
Qed.

Lemma _savetree_writes tree :
  wf tree = true -> supported tree = true -> writes _savetree tree.
Proof.
  induction tree as [data|elems IH|elems IH|n fields IH|c items IH|n]
    using pyval_nested_ind; simpl; intros Hwf Hsup; try discriminate;
    intros attrs links name Hfresh.
  - rewrite _savetree_array. unfold create_dataset. now rewrite Hfresh.
  - rewrite _savetree_list, in_subgroup_fresh by assumption.
    rewrite for_enumerate_items, for_items_writes.
    + simpl. now rewrite enumerate_from_map.
    + apply Forall_enumerate_from. eapply Forall_elems_impl; eassumption.
    + apply NoDup_keys_enumerate.
    + reflexivity.
  - rewrite _savetree_tuple, in_subgroup_fresh by assumption.
    rewrite for_enumerate_items, for_items_writes.
    + simpl. now rewrite enumerate_from_map.
    + apply Forall_enumerate_from. eapply Forall_elems_impl; eassumption.
    + apply NoDup_keys_enumerate.
    + reflexivity.
  - apply andb_true_iff in Hwf as [Hwf Hsub]. apply andb_true_iff in Hwf as [_ Hnodup].
    rewrite _savetree_namedtuple, in_subgroup_fresh by assumption.
    rewrite for_items_writes.
    + reflexivity.
    + eapply Forall_items_impl; eassumption.
    + now apply nodupb_NoDup.
    + reflexivity.
  - apply andb_true_iff in Hwf as [Hwf Hsub]. apply andb_true_iff in Hwf as [_ Hnodup].
    rewrite _savetree_dict, in_subgroup_fresh by assumption.
    rewrite for_items_writes.
    + reflexivity.
    + eapply Forall_items_impl; eassumption.
    + now apply nodupb_NoDup.
    + reflexivity.
Qed.

(** ** A save that meets an unrecognized node raises *)

Lemma for_items_rejects body items attrs links :
  Forall (fun kv => (supported (snd kv) = true -> writes body (snd kv))
                    /\ (supported (snd kv) = false -> rejects body (snd kv))) items ->
  NoDup (keys items) ->
  (forall k, In k (keys items) -> assoc k links = None) ->
  forallb (fun kv => supported (snd kv)) items = false ->
  exists n, snd (for_items body items (Group attrs links)) = Some (UnrecognizedType n).
Proof.
  intros Hall. revert links.
  induction Hall as [|[k v] rest [Hok Hko] _ IH]; intros links Hnodup Hfresh Hsup;
    simpl in *; [discriminate|].
  inversion Hnodup as [|? ? Hnotin Hrest]; subst.
  destruct (supported v) eqn:Hv; simpl in Hsup.
  - rewrite (Hok eq_refl attrs links k) by (apply Hfresh; now left).
    apply IH; try assumption.
    intros k' Hin. apply assoc_insert_fresh. split.
    + intros <-. now apply Hnotin.
    + apply Hfresh. now right.
  - destruct (Hko eq_refl attrs links k) as [n Hn]; [apply Hfresh; now left|].
    destruct (body v (Group attrs links) k) as [sg [e|]]; simpl in Hn; [|discriminate].
    exists n. exact Hn.
Qed.

Lemma Forall_writes_rejects (items : list (string * pyval)) :
  Forall (fun kv => wf (snd kv) = true -> supported (snd kv) = false ->
                    rejects _savetree (snd kv)) items ->
  forallb (fun kv => wf (snd kv)) items = true ->
  Forall (fun kv => (supported (snd kv) = true -> writes _savetree (snd kv))
                    /\ (supported (snd kv) = false -> rejects _savetree (snd kv))) items.
Proof.
  intros H. induction H as [|kv rest Hkv _ IH]; simpl; intros Hwf; constructor.
  - apply andb_true_iff in Hwf as [Hkvwf _]. split; [now apply _savetree_writes | auto].
  - apply andb_true_iff in Hwf as [_ Hrest]. auto.
Qed.

Lemma forallb_enumerate_from {A} (p : A -> bool) k (elems : list A) :
  forallb (fun kv => p (snd kv)) (enumerate_from k elems) = forallb p elems.
Proof.
  revert k. induction elems as [|e rest IH]; intros k; simpl; [reflexivity|].
  now rewrite IH.
Qed.

Lemma _savetree_rejects tree :
  wf tree = true -> supported tree = false -> rejects _savetree tree.
Proof.
  induction tree as [data|elems IH|elems IH|n fields IH|c items IH|n]
    using pyval_nested_ind; simpl; intros Hwf Hsup; try discriminate;
    intros attrs links name Hfresh.
  - rewrite _savetree_list, in_subgroup_fresh by assumption. simpl.
    rewrite for_enumerate_items. apply for_items_rejects.
    + apply Forall_writes_rejects.
      * now apply Forall_enumerate_from with (P := fun v => wf v = true -> supported v = false -> rejects _savetree v).
      * now rewrite forallb_enumerate_from.
    + apply NoDup_keys_enumerate.
    + reflexivity.
    + now rewrite forallb_enumerate_from.
  - rewrite _savetree_tuple, in_subgroup_fresh by assumption. simpl.
    rewrite for_enumerate_items. apply for_items_rejects.
    + apply Forall_writes_rejects.
      * now apply Forall_enumerate_from with (P := fun v => wf v = true -> supported v = false -> rejects _savetree v).
      * now rewrite forallb_enumerate_from.
    + apply NoDup_keys_enumerate.
    + reflexivity.
    + now rewrite forallb_enumerate_from.
  - apply andb_true_iff in Hwf as [Hwf Hsub]. apply andb_true_iff in Hwf as [_ Hnodup].
    rewrite _savetree_namedtuple, in_subgroup_fresh by assumption. simpl.
    apply for_items_rejects; auto using Forall_writes_rejects.
    now apply nodupb_NoDup.
  - apply andb_true_iff in Hwf as [Hwf Hsub]. apply andb_true_iff in Hwf as [_ Hnodup].
    rewrite _savetree_dict, in_subgroup_fresh by assumption. simpl.
    apply for_items_rejects; auto using Forall_writes_rejects.
    now apply nodupb_NoDup.
  - rewrite _savetree_object, in_subgroup_fresh by assumption. simpl. now exists n.
Qed.

(** ** [save] and [load] on top of [_savetree] and [_loadtree] *)

Lemma ndarray_eta data : mk_ndarray (dtype data) (shape data) (buffer data) = data.
Proof. now destruct data. Qed.

Lemma map_id_Forall {A} (f : A -> A) (l : list A) :
  Forall (fun x => f x = x) l -> map f l = l.
Proof. induction 1; simpl; congruence. Qed.

Lemma device_get_host tree : device_get tree = tree.
Proof.
  induction tree as [data|elems IH|elems IH|n fields IH|c items IH|n]
    using pyval_nested_ind; simpl.
  - now rewrite ndarray_eta.
  - now rewrite map_id_Forall.
  - now rewrite map_id_Forall.
  - f_equal. apply map_id_Forall. eapply Forall_impl; [|exact IH].
    intros [k v]; simpl; congruence.
  - f_equal. apply map_id_Forall. eapply Forall_impl; [|exact IH].
    intros [k v]; simpl; congruence.
  - reflexivity.
Qed.

Lemma save_eq fs filepath tree :
  save fs filepath tree
  = (write_file (write_file fs filepath empty_group) filepath
       (fst (_savetree tree empty_group "pytree")),
     snd (_savetree tree empty_group "pytree")).
Proof.
  unfold save. simpl. rewrite device_get_host.
  now destruct (_savetree tree empty_group "pytree").
Qed.

Lemma save_supported fs filepath tree :
  wf tree = true -> supported tree = true ->
  save fs filepath tree
  = (write_file (write_file fs filepath empty_group) filepath
       (Group [] [("pytree", encode tree)]), None).
Proof.
  intros Hwf Hsup. rewrite save_eq.
  unfold empty_group. now rewrite (_savetree_writes tree Hwf Hsup [] [] "pytree").
Qed.

Lemma save_unsupported fs filepath tree :
  wf tree = true -> supported tree = false ->
  exists n, snd (save fs filepath tree) = Some (UnrecognizedType n).
Proof.
  intros Hwf Hsup. rewrite save_eq. simpl.
  now apply (_savetree_rejects tree Hwf Hsup [] [] "pytree").
Qed.

Lemma save_accepts fs filepath tree :
  wf tree = true -> snd (save fs filepath tree) = None -> supported tree = true.
Proof.
  intros Hwf Hnone. destruct (supported tree) eqn:Hsup; [reflexivity|].
  destruct (save_unsupported fs filepath tree Hwf Hsup) as [n Hn]. congruence.
Qed.

Lemma load_written fs filepath f :
  load (write_file fs filepath f) filepath
  = (write_file fs filepath f, bind (getitem f "pytree") _loadtree).
Proof.
  unfold load, File, write_file. now rewrite assoc_set_same.
Qed.

Lemma roundtrip_encode fs filepath tree :
  wf tree = true -> supported tree = true ->
  roundtrip fs filepath tree = _loadtree (encode tree).
Proof.
  intros Hwf Hsup. unfold roundtrip. rewrite save_supported by assumption.
  simpl fst. now rewrite load_written.
Qed.

(** ** The links of a group are those that were created *)

Lemma Permutation_link_insert {A} n (a : A) l :
  Permutation (link_insert n a l) ((n, a) :: l).
Proof.
  induction l as [|[k b] rest IH]; simpl.
  - reflexivity.
  - destruct (n <? k); [reflexivity|].
    rewrite IH. apply perm_swap.
Qed.

Lemma Permutation_index_links {A} (pairs links : list (string * A)) :
  Permutation (index_links pairs links) (pairs ++ links).
Proof.
  unfold index_links. revert links.
  induction pairs as [|[k a] rest IH]; intros links; simpl.
  - reflexivity.
  - rewrite IH, Permutation_link_insert. symmetry. apply Permutation_middle.
Qed.

Lemma In_index_links {A} (pairs : list (string * A)) link :
  In link (index_links pairs []) <-> In link pairs.
Proof.
  pose proof (Permutation_index_links pairs []) as HP.
  rewrite List.app_nil_r in HP.
  split; apply Permutation_in; [assumption | now symmetry].
Qed.

Lemma In_enumerate_from {A} k (elems : list A) link :
  In link (enumerate_from k elems) -> In (snd link) elems.
Proof.
  revert k. induction elems as [|e rest IH]; intros k; simpl; [tauto|].
  intros [<-|Hin]; [now left | right; eauto].
Qed.

(** ** Attributes in what a save writes *)



(** ** Reading back: what a successful [_loadtree] has seen *)

Lemma bind_ok {A B} (x : result A) (k : A -> result B) b :
  bind x k = Ok b -> exists a, x = Ok a /\ k a = Ok b.
Proof. destruct x as [a|e]; simpl; [eauto | discriminate]. Qed.

Lemma force_ok {A B} (f : A -> result B) (l : list A) vs :
  force (map f l) = Ok vs -> Forall (fun x => exists v, f x = Ok v) l.
Proof.
  revert vs. induction l as [|x rest IH]; intros vs; simpl; [constructor|].
  intros H. apply bind_ok in H as (v & Hx & H).
  apply bind_ok in H as (vs' & Hrest & _). constructor; eauto.
Qed.

Lemma _loadtree_group_ok attrs links tree :
  _loadtree (Group attrs links) = Ok tree ->
  assoc "type" attrs <> None
  /\ exists vs, force (map (fun link => _loadtree (snd link)) links) = Ok vs.
Proof.
  simpl. destruct (assoc "type" attrs) as [tag|]; [|discriminate].
  intros H. split; [discriminate|].
  destruct (tag =? "dict"); [apply bind_ok in H as (vs & ? & _); eauto|].
  destruct (tag =? "list"); [apply bind_ok in H as (vs & ? & _); eauto|].
  destruct (tag =? "tuple"); [apply bind_ok in H as (vs & ? & _); eauto|].
  apply bind_ok in H as (cls & _ & H). apply bind_ok in H as (vs & ? & _). eauto.
Qed.

Lemma _loadtree_ok_typed node :
  forall tree, _loadtree node = Ok tree ->
  forall attrs links, In (Group attrs links) (nodes node) -> assoc "type" attrs <> None.
Proof.
  induction node as [attrs data|attrs links IH] using h5node_nested_ind;
    intros tree Hok attrs' links'; simpl nodes.
  - intros [[=]|[]].
  - apply _loadtree_group_ok in Hok as [Htype [vs Hvs]].
    intros [[= <- <-]|Hin]; [assumption|].
    apply in_flat_map in Hin as (link & Hlink & Hin).
    apply force_ok in Hvs. rewrite Forall_forall in IH, Hvs.
    destruct (Hvs link Hlink) as [v Hv]. eapply IH; eassumption.
Qed.

(** ** Links created in the order of their names stay in that order *)

Lemma ltb_asym x y : (x <? y) = true -> (y <? x) = false.
Proof.
  unfold String.ltb. rewrite (String.compare_antisym x y).
  now destruct (String.compare y x).
Qed.

Lemma link_insert_last {A} n (a : A) l :
  Forall (fun k => (k <? n) = true) (keys l) ->
  link_insert n a l = l ++ [(n, a)].
Proof.
  induction l as [|[k b] rest IH]; simpl; intros H; [reflexivity|].
  inversion H as [|? ? Hk Hrest]; subst.
  rewrite (ltb_asym _ _ Hk). now rewrite IH.
Qed.

Lemma index_links_increasing {A} (pairs links : list (string * A)) :
  increasing (keys pairs) = true ->
  Forall (fun k => forallb (fun y => k <? y) (keys pairs) = true) (keys links) ->
  index_links pairs links = links ++ pairs.
Proof.
  unfold index_links. revert links.
  induction pairs as [|[k a] rest IH]; intros links; simpl; intros Hinc Hbelow.
  - now rewrite List.app_nil_r.
  - apply andb_true_iff in Hinc as [Hk Hinc].
    rewrite link_insert_last.
    + rewrite IH; [now rewrite <- List.app_assoc | assumption |].
      unfold keys. rewrite map_app. apply Forall_app. split.
      * eapply Forall_impl; [|exact Hbelow].
        intros x Hx. now apply andb_true_iff in Hx as [_ ?].
      * now repeat constructor.
    + eapply Forall_impl; [|exact Hbelow].
      intros x Hx. now apply andb_true_iff in Hx as [? _].
Qed.

Lemma index_links_sorted {A} (pairs : list (string * A)) :
  increasing (keys pairs) = true -> index_links pairs [] = pairs.
Proof.
  intros H. now rewrite index_links_increasing.
Qed.

Lemma link_insert_map_snd {A B} (f : A -> B) n a (l : list (string * A)) :
  link_insert n (f a) (map_snd f l) = map_snd f (link_insert n a l).
Proof.
  induction l as [|[k b] rest IH]; simpl; [reflexivity|].
  destruct (n <? k); simpl; [reflexivity | now rewrite IH].
Qed.

Lemma index_links_map_snd {A B} (f : A -> B) (pairs links : list (string * A)) :
  index_links (map_snd f pairs) (map_snd f links) = map_snd f (index_links pairs links).
Proof.
  unfold index_links. revert links.
  induction pairs as [|[k a] rest IH]; intros links; simpl; [reflexivity|].
  now rewrite link_insert_map_snd, IH.
Qed.

Lemma index_links_map_snd_nil {A B} (f : A -> B) (pairs : list (string * A)) :
  index_links (map_snd f pairs) [] = map_snd f (index_links pairs []).
Proof. exact (index_links_map_snd f pairs []). Qed.

Lemma keys_map_snd {A B} (f : A -> B) (l : list (string * A)) :
  keys (map_snd f l) = keys l.
Proof. unfold keys, map_snd. rewrite map_map. now apply map_ext. Qed.

Lemma increasing_arr n :
  (n <=? 10)%nat = true -> increasing (map arr (seq 0 n)) = true.
Proof.
  do 11 (destruct n as [|n]; [reflexivity|]). discriminate.
Qed.

Lemma index_links_enumerate {A} (elems : list A) :
  (List.length elems <=? 10)%nat = true ->
  index_links (enumerate_from 0 elems) [] = enumerate_from 0 elems.
Proof.
  intros H. apply index_links_sorted.
  rewrite keys_enumerate_from. now apply increasing_arr.
Qed.

(** ** [dict(zip(keys, values))] and [namedtuple] *)

Lemma assoc_set_fresh {A} k (a : A) l :
  ~ In k (keys l) -> assoc_set k a l = l ++ [(k, a)].
Proof.
  induction l as [|[k' b] rest IH]; simpl; intros Hnotin; [reflexivity|].
  destruct (String.eqb_spec k' k) as [->|Hne]; [exfalso; auto|].
  rewrite IH; auto.
Qed.

Lemma dict_of_pairs_NoDup {A} (pairs : list (string * A)) :
  NoDup (keys pairs) -> dict_of_pairs pairs = pairs.
Proof.
  unfold dict_of_pairs.
  enough (H : forall acc, NoDup (keys (acc ++ pairs)) ->
                fold_left (fun d kv => assoc_set (fst kv) (snd kv) d) pairs acc
                = acc ++ pairs) by (intros Hnd; exact (H [] Hnd)).
  induction pairs as [|[k a] rest IH]; intros acc Hnd; simpl.
  - now rewrite List.app_nil_r.
  - rewrite assoc_set_fresh.
    + rewrite IH; rewrite <- List.app_assoc; [reflexivity | exact Hnd].
    + unfold keys in *. rewrite map_app in Hnd. simpl in Hnd.
      apply NoDup_remove_2 in Hnd. rewrite in_app_iff in Hnd. tauto.
Qed.

Lemma check_names_valid names :
  forallb valid_typename names = true -> check_names names = None.
Proof.
  induction names as [|n rest IH]; simpl; [reflexivity|].
  unfold valid_typename at 1. intros H.
  apply andb_true_iff in H as [H Hrest]. apply andb_true_iff in H as [Hid Hkw].
  rewrite Hid. apply negb_true_iff in Hkw. rewrite Hkw. simpl. auto.
Qed.

Lemma check_fields_valid seen names :
  forallb (fun n => negb (startswith_underscore n)) names = true ->
  NoDup names -> (forall n, In n names -> ~ In n seen) ->
  check_fields seen names = None.
Proof.
  revert seen. induction names as [|n rest IH]; intros seen; simpl; [reflexivity|].
  intros H Hnd Hseen. apply andb_true_iff in H as [Hn Hrest].
  apply negb_true_iff in Hn. rewrite Hn.
  inversion Hnd as [|? ? Hnotin Hnd']; subst.
  assert (Hmem : mem n seen = false) by (apply mem_false, Hseen; now left).
  rewrite Hmem. apply IH; try assumption.
  intros m Hm [<-|Hin]; [contradiction|]. apply (Hseen m); auto.
Qed.

Lemma valid_field_typename n : valid_field n = true -> valid_typename n = true.
Proof. unfold valid_field. intros H. now apply andb_true_iff in H as [? _]. Qed.

Lemma valid_field_no_underscore n :
  valid_field n = true -> negb (startswith_underscore n) = true.
Proof. unfold valid_field. intros H. now apply andb_true_iff in H as [_ ?]. Qed.

Lemma forallb_impl {A} (p q : A -> bool) (l : list A) :
  (forall x, p x = true -> q x = true) -> forallb p l = true -> forallb q l = true.
Proof.
  intros Hpq. rewrite !forallb_forall. auto.
Qed.

Lemma namedtuple_valid typename field_names :
  valid_typename typename = true ->
  forallb valid_field field_names = true ->
  NoDup field_names ->
  namedtuple typename field_names
  = Ok (fun args =>
          if Nat.eqb (List.length args) (List.length field_names)
          then Ok (PNamedTuple typename (combine field_names args))
          else Raise (TypeError typename)).
Proof.
  intros Hty Hfields Hnd. unfold namedtuple.
  rewrite check_names_valid, check_fields_valid; auto.
  - eapply forallb_impl; [|exact Hfields]. exact valid_field_no_underscore.
  - simpl. rewrite Hty. eapply forallb_impl; [|exact Hfields]. exact valid_field_typename.
Qed.

(** ** [_loadtree] on a group whose children load *)

Lemma force_Forall2 {A B} (f : A -> result B) l vs :
  Forall2 (fun x v => f x = Ok v) l vs -> force (map f l) = Ok vs.
Proof.
  induction 1 as [|x v l vs Hx _ IH]; simpl; [reflexivity|].
  now rewrite Hx, IH.
Qed.

Lemma _loadtree_group tag links vs :
  Forall2 (fun link v => _loadtree (snd link) = Ok v) links vs ->
  _loadtree (Group [("type", tag)] links)
  = if tag =? "dict" then Ok (PDict "dict" (dict_of_pairs (combine (keys links) vs)))
    else if tag =? "list" then Ok (PList vs)
    else if tag =? "tuple" then Ok (PTuple vs)
    else bind (namedtuple tag (keys links)) (fun cls => cls vs).
Proof.
  intros H. apply force_Forall2 in H.
  change (_loadtree (Group [("type", tag)] links))
    with (let values := map (fun link => _loadtree (snd link)) links in
          if tag =? "dict" then
            bind (force values) (fun vs =>
            Ok (PDict "dict" (dict_of_pairs (combine (keys links) vs))))
          else if tag =? "list" then bind (force values) (fun vs => Ok (PList vs))
          else if tag =? "tuple" then bind (force values) (fun vs => Ok (PTuple vs))
          else bind (namedtuple tag (keys links)) (fun cls => bind (force values) cls)).
  cbv zeta. rewrite H. simpl bind.
  destruct (tag =? "dict"); [reflexivity|].
  destruct (tag =? "list"); [reflexivity|].
  destruct (tag =? "tuple"); [reflexivity|].
  now destruct (namedtuple tag (keys links)).
Qed.

Lemma loads_to_links written loaded :
  loads_to written loaded ->
  Forall2 (fun link v => _loadtree (snd link) = Ok v)
          (map_snd encode written) (values loaded)
  /\ keys written = keys loaded.
Proof.
  induction 1 as [|[k v] [k' v'] written loaded [Hk Hv] _ [IH1 IH2]]; simpl in *.
  - split; [constructor | reflexivity].
  - split; [now constructor | congruence].
Qed.

Lemma combine_keys_values {A} (l : list (string * A)) :
  combine (keys l) (values l) = l.
Proof.
  induction l as [|[k a] rest IH]; simpl; [reflexivity | now rewrite IH].
Qed.

Lemma length_keys {A} (l : list (string * A)) : List.length (keys l) = List.length l.
Proof. apply length_map. Qed.

Lemma length_values {A} (l : list (string * A)) : List.length (values l) = List.length l.
Proof. apply length_map. Qed.

Lemma loads_to_map (g : pyval -> pyval) written :
  (forall kv, In kv written -> _loadtree (encode (snd kv)) = Ok (g (snd kv))) ->
  loads_to written (map_snd g written).
Proof.
  unfold loads_to. induction written as [|kv rest IH]; simpl; intros H; constructor.
  - split; [reflexivity | apply H; now left].
  - apply IH. intros kv' Hin. apply H. now right.
Qed.

(** The four outcomes of loading a written container, by its tag. *)
Lemma _loadtree_written tag written loaded :
  loads_to written loaded ->
  _loadtree (Group [("type", tag)] (map_snd encode written))
  = if tag =? "dict" then Ok (PDict "dict" (dict_of_pairs loaded))
    else if tag =? "list" then Ok (PList (values loaded))
    else if tag =? "tuple" then Ok (PTuple (values loaded))
    else bind (namedtuple tag (keys loaded)) (fun cls => cls (values loaded)).
Proof.
  intros H. apply loads_to_links in H as [Hlinks Hkeys].
  rewrite (_loadtree_group tag Hlinks), keys_map_snd, Hkeys.
  now rewrite combine_keys_values.
Qed.

Lemma reserved_false tag :
  reserved tag = false ->
  (tag =? "dict") = false /\ (tag =? "list") = false /\ (tag =? "tuple") = false.
Proof.
  unfold reserved, mem. simpl. rewrite !orb_false_r.
  intros H. apply orb_false_iff in H as [? H]. now apply orb_false_iff in H as [? ?].
Qed.

Lemma _loadtree_written_namedtuple tag written loaded :
  loads_to written loaded ->
  reserved tag = false -> valid_typename tag = true ->
  forallb valid_field (keys written) = true -> NoDup (keys written) ->
  _loadtree (Group [("type", tag)] (map_snd encode written))
  = Ok (PNamedTuple tag loaded).
Proof.
  intros Hloads Hres Hty Hfields Hnd.
  rewrite (_loadtree_written tag Hloads).
  apply reserved_false in Hres as (-> & -> & ->).
  apply loads_to_links in Hloads as [_ Hkeys]. rewrite Hkeys in Hfields, Hnd.
  rewrite namedtuple_valid by assumption. simpl.
  rewrite length_values, length_keys, Nat.eqb_refl.
  now rewrite combine_keys_values.
Qed.

Lemma values_enumerate_from {A} k (elems : list A) :
  values (enumerate_from k elems) = elems.
Proof.
  revert k. induction elems as [|e rest IH]; intros k; simpl; [reflexivity|].
  now rewrite IH.
Qed.

Lemma values_map_snd {A B} (f : A -> B) (l : list (string * A)) :
  values (map_snd f l) = map f (values l).
Proof. unfold values, map_snd. now rewrite !map_map. Qed.

(** ** The round trip of name-ordered trees *)

Lemma pytree_supported tree : pytree tree = true -> supported tree = true.
Proof.
  induction tree as [data|elems IH|elems IH|n fields IH|c items IH|n]
    using pyval_nested_ind; simpl; intros H; try reflexivity; try discriminate.
  - rewrite forallb_forall in *. rewrite Forall_forall in IH. auto.
  - rewrite forallb_forall in *. rewrite Forall_forall in IH. auto.
  - apply andb_true_iff in H as [_ H].
    rewrite forallb_forall in *. rewrite Forall_forall in IH. auto.
  - apply andb_true_iff in H as [_ H].
    rewrite forallb_forall in *. rewrite Forall_forall in IH. auto.
Qed.

Lemma _loadtree_encode tree :
  wf tree = true -> pytree tree = true -> name_ordered tree = true ->
  _loadtree (encode tree) = Ok (normalize tree).
Proof.
  induction tree as [data|elems IH|elems IH|n fields IH|c items IH|n]
    using pyval_nested_ind; simpl wf; simpl pytree; simpl name_ordered;
    intros Hwf Hpy Hord; try discriminate.
  - reflexivity.
  - apply andb_true_iff in Hord as [Hlen Hord].
    rewrite forallb_forall in Hwf, Hpy, Hord. rewrite Forall_forall in IH.
    simpl encode. rewrite enumerate_from_map, index_links_map_snd_nil.
    rewrite index_links_enumerate by assumption.
    rewrite (_loadtree_written "list" (loaded := map_snd normalize (enumerate_from 0 elems))).
    + simpl. now rewrite values_map_snd, values_enumerate_from.
    + apply loads_to_map. intros kv Hin. apply In_enumerate_from in Hin. auto.
  - apply andb_true_iff in Hord as [Hlen Hord].
    rewrite forallb_forall in Hwf, Hpy, Hord. rewrite Forall_forall in IH.
    simpl encode. rewrite enumerate_from_map, index_links_map_snd_nil.
    rewrite index_links_enumerate by assumption.
    rewrite (_loadtree_written "tuple" (loaded := map_snd normalize (enumerate_from 0 elems))).
    + simpl. now rewrite values_map_snd, values_enumerate_from.
    + apply loads_to_map. intros kv Hin. apply In_enumerate_from in Hin. auto.
  - apply andb_true_iff in Hwf as [Hwf Hsub]. apply andb_true_iff in Hwf as [_ Hnodup].
    apply andb_true_iff in Hpy as [Hpy Hpysub]. apply andb_true_iff in Hpy as [Hpy Hfields].
    apply andb_true_iff in Hpy as [Hty Hres]. apply negb_true_iff in Hres.
    apply andb_true_iff in Hord as [Hinc Hord].
    rewrite forallb_forall in Hsub, Hpysub, Hord. rewrite Forall_forall in IH.
    simpl encode.
    change (map (fun kv => (fst kv, encode (snd kv))) fields) with (map_snd encode fields).
    rewrite index_links_map_snd_nil, index_links_sorted by assumption.
    apply _loadtree_written_namedtuple; auto.
    + apply loads_to_map. intros kv Hin. auto.
    + now apply nodupb_NoDup.
  - apply andb_true_iff in Hwf as [Hwf Hsub]. apply andb_true_iff in Hwf as [_ Hnodup].
    apply andb_true_iff in Hpy as [Hc Hpysub]. apply String.eqb_eq in Hc. subst c.
    rewrite forallb_forall in Hsub, Hpysub, Hord. rewrite Forall_forall in IH.
    simpl encode.
    change (map (fun kv => (fst kv, encode (snd kv))) items) with (map_snd encode items).
    rewrite index_links_map_snd_nil.
    rewrite (_loadtree_written "dict" (loaded := map_snd normalize (index_links items []))).
    + simpl. rewrite dict_of_pairs_NoDup.
      * now rewrite <- index_links_map_snd_nil.
      * rewrite keys_map_snd. apply nodupb_NoDup in Hnodup.
        eapply Permutation_NoDup; [|exact Hnodup].
        unfold keys. apply Permutation_map. symmetry.
        rewrite <- (List.app_nil_r items) at 2. apply Permutation_index_links.
    + apply loads_to_map. intros kv Hin. apply (proj1 (In_index_links _ _)) in Hin. auto.
Qed.



Lemma roundtrip_normalize fs filepath tree :
  wf tree = true -> pytree tree = true -> name_ordered tree = true ->
  roundtrip fs filepath tree = Ok (normalize tree).
Proof.
  intros Hwf Hpy Hord.
  rewrite roundtrip_encode by auto using pytree_supported.
  now apply _loadtree_encode.
Qed.

(** ** The exceptions of [_loadtree] *)

Lemma force_length {A B} (f : A -> result B) (l : list A) vs :
  force (map f l) = Ok vs -> List.length vs = List.length l.
Proof.
  revert vs. induction l as [|x rest IH]; intros vs; simpl.
  - now intros [= <-].
  - intros H. apply bind_ok in H as (v & _ & H).
    apply bind_ok in H as (vs' & Hrest & [= <-]). simpl. f_equal. eauto.
Qed.

Lemma force_raise {A B} (f : A -> result B) (l : list A) e :
  force (map f l) = Raise e -> exists x, In x l /\ f x = Raise e.
Proof.
  induction l as [|x rest IH]; simpl; [discriminate|].
  destruct (f x) as [v|e'] eqn:Hx; simpl.
  - destruct (force (map f rest)) as [vs|e'']; simpl; [discriminate|].
    intros [= <-]. destruct (IH eq_refl) as (y & Hin & Hy). eauto.
  - intros [= <-]. eauto.
Qed.

Lemma check_names_raises names e :
  check_names names = Some e -> exists n, e = InvalidName n.
Proof.
  induction names as [|n rest IH]; simpl; [discriminate|].
  destruct (negb (isidentifier n)); [intros [= <-]; eauto|].
  destruct (iskeyword n); [intros [= <-]; eauto | exact IH].
Qed.

Lemma check_fields_raises seen names e :
  check_fields seen names = Some e -> exists n, e = InvalidName n.
Proof.
  revert seen. induction names as [|n rest IH]; intros seen; simpl; [discriminate|].
  destruct (startswith_underscore n); [intros [= <-]; eauto|].
  destruct (mem n seen); [intros [= <-]; eauto | apply IH].
Qed.

Lemma check_names_None names :
  check_names names = None -> forallb valid_typename names = true.
Proof.
  induction names as [|n rest IH]; simpl; [reflexivity|].
  unfold valid_typename at 1.
  destruct (isidentifier n); simpl; [|discriminate].
  destruct (iskeyword n); simpl; [discriminate | exact IH].
Qed.

Lemma check_fields_None seen names :
  check_fields seen names = None ->
  forallb (fun n => negb (startswith_underscore n)) names = true.
Proof.
  revert seen. induction names as [|n rest IH]; intros seen; simpl; [reflexivity|].
  destruct (startswith_underscore n); simpl; [discriminate|].
  destruct (mem n seen); [discriminate | apply IH].
Qed.

Lemma namedtuple_cases typename field_names :
  (exists n, namedtuple typename field_names = Raise (InvalidName n))
  \/ (valid_typename typename = true
      /\ forallb valid_field field_names = true
      /\ namedtuple typename field_names
         = Ok (fun args =>
                 if Nat.eqb (List.length args) (List.length field_names)
                 then Ok (PNamedTuple typename (combine field_names args))
                 else Raise (TypeError typename))).
Proof.
  unfold namedtuple.
  destruct (check_names (typename :: field_names)) as [e|] eqn:Hnames.
  { apply check_names_raises in Hnames as [n ->]. left. eauto. }
  destruct (check_fields [] field_names) as [e|] eqn:Hfields.
  { apply check_fields_raises in Hfields as [n ->]. left. eauto. }
  right. apply check_names_None in Hnames. apply check_fields_None in Hfields.
  simpl in Hnames. apply andb_true_iff in Hnames as [Hty Hrest].
  split; [assumption|]. split; [|reflexivity].
  rewrite forallb_forall in *. intros n Hin.
  specialize (Hrest n Hin). specialize (Hfields n Hin).
  unfold valid_field. unfold valid_typename in Hrest. now rewrite Hrest, Hfields.
Qed.

Lemma _loadtree_raises node e :
  _loadtree node = Raise e -> e = KeyError "type" \/ exists n, e = InvalidName n.
Proof.
  revert e.
  induction node as [attrs data|attrs links IH] using h5node_nested_ind;
    intros e; simpl; [discriminate|].
  destruct (assoc "type" attrs) as [tag|]; [|intros [= <-]; now left].
  rewrite Forall_forall in IH.
  assert (Hforce : forall e', force (map (fun link => _loadtree (snd link)) links) = Raise e' ->
                     e' = KeyError "type" \/ exists n, e' = InvalidName n).
  { intros e' H. apply force_raise in H as (link & Hin & H). eapply IH; eassumption. }
  destruct (force (map (fun link => _loadtree (snd link)) links)) as [vs|e'] eqn:Hvs.
  - apply force_length in Hvs. simpl.
    destruct (tag =? "dict"); [discriminate|].
    destruct (tag =? "list"); [discriminate|].
    destruct (tag =? "tuple"); [discriminate|].
    destruct (namedtuple_cases tag (keys links)) as [[n ->]|(_ & _ & ->)]; simpl.
    + intros [= <-]. right. eauto.
    + rewrite Hvs, length_keys, Nat.eqb_refl. discriminate.
  - specialize (Hforce e' eq_refl). simpl.
    destruct (tag =? "dict"); [now intros [= <-]|].
    destruct (tag =? "list"); [now intros [= <-]|].
    destruct (tag =? "tuple"); [now intros [= <-]|].
    destruct (namedtuple_cases tag (keys links)) as [[n ->]|(_ & _ & ->)]; simpl.
    + intros [= <-]. right. eauto.
    + now intros [= <-].
Qed.

(** ** Dispatch on the tag *)

Lemma Permutation_keys_index_links {A} (items : list (string * A)) :
  Permutation (keys (index_links items [])) (keys items).
Proof.
  unfold keys. apply Permutation_map.
  rewrite <- (List.app_nil_r items) at 2. apply Permutation_index_links.
Qed.

Lemma forallb_Permutation {A} (p : A -> bool) (l l' : list A) :
  Permutation l l' -> forallb p l = forallb p l'.
Proof.
  induction 1; simpl; try congruence.
  now rewrite !andb_assoc, (andb_comm (p y)).
Qed.



(** * The claims *)




(** C2: a list of eleven arrays is saved under [arr0] ... [arr10] and comes
    back in the order in which the file lists these names, [arr10] before
    [arr2]: [_loadtree] does not sort by the numeric suffix. *)
Theorem load_list_in_file_order :
  assoc "/tmp/t.h5" (fst (save [] "/tmp/t.h5" eleven))
  = Some (Group [] [("pytree", encode eleven)])
  /\ keys (node_links (encode eleven)) = map arr [0; 1; 10; 2; 3; 4; 5; 6; 7; 8; 9]
  /\ roundtrip [] "/tmp/t.h5" eleven
     = Ok (PList (map (fun k => PArray (ones k)) [0; 1; 10; 2; 3; 4; 5; 6; 7; 8; 9]))
  /\ roundtrip [] "/tmp/t.h5" eleven <> Ok eleven.
Proof.
  split; [reflexivity|]. split; [reflexivity|]. split; [reflexivity|].
  vm_compute. discriminate.
Qed.










(** C7: [load] raises the KeyError of the lookup when the file has no node
    named [pytree]; a group without a [type] attribute makes [_loadtree]
    raise the KeyError of that lookup, and a file that holds such a group
    under [pytree] does not load: the exception is that KeyError, or the
    ValueError of [namedtuple] raised above it; [load] returns a tree only
    when [pytree] is there and every group under it has a [type]. *)
Theorem load_lookup_failures fs filepath f :
  assoc filepath fs = Some f ->
  (assoc "pytree" (node_links f) = None ->
     snd (load fs filepath) = Raise (KeyError "pytree"))
  /\ (forall attrs links, assoc "type" attrs = None ->
        _loadtree (Group attrs links) = Raise (KeyError "type"))
  /\ (forall pt attrs links,
        assoc "pytree" (node_links f) = Some pt ->
        In (Group attrs links) (nodes pt) -> assoc "type" attrs = None ->
        exists e, snd (load fs filepath) = Raise e
                  /\ (e = KeyError "type" \/ exists n, e = InvalidName n))
  /\ (forall tree, snd (load fs filepath) = Ok tree ->
        exists pt, assoc "pytree" (node_links f) = Some pt
          /\ forall attrs links,
               In (Group attrs links) (nodes pt) -> assoc "type" attrs <> None).
Proof.
  intros Hfile.
  assert (Hload : snd (load fs filepath) = bind (getitem f "pytree") _loadtree).
  { unfold load, File. now rewrite Hfile. }
  rewrite Hload. unfold getitem. repeat split.
  - now intros ->.
  - intros attrs links H. simpl. now rewrite H.
  - intros pt attrs links -> Hin Hnone. simpl.
    destruct (_loadtree pt) as [tree|e] eqn:Hpt.
    + exfalso. exact (_loadtree_ok_typed pt Hpt attrs links Hin Hnone).
    + exists e. split; [reflexivity | now apply _loadtree_raises with pt].
  - intros tree. destruct (assoc "pytree" (node_links f)) as [pt|]; [|discriminate].
    simpl. intros Hpt. exists pt. split; [reflexivity|].
    now apply _loadtree_ok_typed with tree.
Qed.

Lemma load_lookup_failures_witness :
  snd (load [("/tmp/t.h5", empty_group)] "/tmp/t.h5") = Raise (KeyError "pytree").
Proof.
  exact (proj1 (load_lookup_failures [("/tmp/t.h5", empty_group)] "/tmp/t.h5"
                  (f := empty_group) eq_refl) eq_refl).
Defined.

(** C8: [load] leaves every file as it was, whether it returns a tree or
    raises, and loading again gives the same outcome. *)
Theorem load_leaves_files_unchanged fs filepath :
  fst (load fs filepath) = fs
  /\ load (fst (load fs filepath)) filepath = load fs filepath.
Proof.
  assert (H : fst (load fs filepath) = fs).
  { unfold load, File. now destruct (assoc filepath fs). }
  split; [exact H | now rewrite H].
Qed.






(** * Further properties of [save] and [load] *)

(** ** [save] and the other files *)

Lemma assoc_set_twice {A} k (a b : A) l :
  assoc_set k a (assoc_set k b l) = assoc_set k a l.
Proof.
  induction l as [|[k' c] rest IH]; simpl.
  - now rewrite String.eqb_refl.
  - destruct (k' =? k) eqn:E; simpl; rewrite E; [reflexivity | now rewrite IH].
Qed.

(** X1: [save] replaces whatever file was at its path: the file it leaves
    and the exception it raises do not depend on the files there before;
    every other path keeps its file, and loading another path gives what it
    gave before the save. *)
Theorem save_replaces_file fs fs' filepath tree other :
  assoc filepath (fst (save fs filepath tree))
  = assoc filepath (fst (save fs' filepath tree))
  /\ snd (save fs filepath tree) = snd (save fs' filepath tree)
  /\ (other <> filepath ->
      assoc other (fst (save fs filepath tree)) = assoc other fs
      /\ snd (load (fst (save fs filepath tree)) other) = snd (load fs other)).
Proof.
  rewrite !save_eq. simpl. unfold write_file.
  split; [now rewrite !assoc_set_same|]. split; [reflexivity|].
  intros Hne.
  assert (H : assoc other
                (assoc_set filepath (fst (_savetree tree empty_group "pytree"))
                   (assoc_set filepath empty_group fs)) = assoc other fs)
    by (rewrite !assoc_set_other; auto).
  split; [exact H|]. unfold load, File. rewrite H.
  now destruct (assoc other fs).
Qed.

Lemma save_replaces_file_witness :
  assoc "a.h5" (fst (save [("a.h5", empty_group)] "b.h5" example_tree))
  = Some empty_group
  /\ snd (load (fst (save [("a.h5", empty_group)] "b.h5" example_tree)) "a.h5")
     = snd (load [("a.h5", empty_group)] "a.h5").
Proof.
  apply (save_replaces_file [("a.h5", empty_group)] [] "b.h5" example_tree "a.h5").
  discriminate.
Defined.

(** X2: of two saves to the same path the last one wins: the files are
    those that the second save alone would have left. *)
Theorem save_twice fs filepath tree1 tree2 :
  fst (save (fst (save fs filepath tree1)) filepath tree2)
  = fst (save fs filepath tree2).
Proof.
  rewrite !save_eq. simpl. unfold write_file. now rewrite !assoc_set_twice.
Qed.

(** ** The exception of [save] *)








(** ** The file after a [save] that raised *)






(** ** The children of a saved container, by name *)









(** ** Lists and tuples of any length *)

Lemma Permutation_values {A} (l l' : list (string * A)) :
  Permutation l l' -> Permutation (values l) (values l').
Proof. apply Permutation_map. Qed.

Lemma enumerated_roundtrip tag elems :
  forallb wf elems = true -> forallb pytree elems = true ->
  forallb name_ordered elems = true ->
  exists loaded,
    _loadtree (Group [("type", tag)]
                 (index_links (enumerate_from 0 (map encode elems)) []))
    = (if tag =? "dict" then Ok (PDict "dict" (dict_of_pairs (map_snd normalize (index_links (enumerate_from 0 elems) []))))
       else if tag =? "list" then Ok (PList loaded)
       else if tag =? "tuple" then Ok (PTuple loaded)
       else bind (namedtuple tag (keys (index_links (enumerate_from 0 elems) [])))
                 (fun cls => cls loaded))
    /\ Permutation loaded (map normalize elems).
Proof.
  intros Hwf Hpy Hord. rewrite forallb_forall in Hwf, Hpy, Hord.
  exists (values (map_snd normalize (index_links (enumerate_from 0 elems) []))).
  split.
  - rewrite enumerate_from_map, index_links_map_snd_nil.
    rewrite (_loadtree_written tag
               (loaded := map_snd normalize (index_links (enumerate_from 0 elems) []))).
    + now rewrite keys_map_snd.
    + apply loads_to_map. intros kv Hin.
      apply (proj1 (In_index_links _ _)), In_enumerate_from in Hin.
      apply _loadtree_encode; auto.
  - rewrite values_map_snd. apply Permutation_map.
    rewrite <- (values_enumerate_from 0 elems) at 2.
    apply Permutation_values.
    rewrite <- (List.app_nil_r (enumerate_from 0 elems)) at 2.
    apply Permutation_index_links.
Qed.

(** X6: whatever its length, a list (or tuple) of trees that load back
    comes back as a list (or tuple) with the same elements, none lost and
    none twice: the order alone can change. *)
Theorem sequence_roundtrip_permutation fs filepath elems :
  forallb wf elems = true -> forallb pytree elems = true ->
  forallb name_ordered elems = true ->
  (exists loaded, roundtrip fs filepath (PList elems) = Ok (PList loaded)
                  /\ Permutation loaded (map normalize elems))
  /\ (exists loaded, roundtrip fs filepath (PTuple elems) = Ok (PTuple loaded)
                     /\ Permutation loaded (map normalize elems)).
Proof.
  intros Hwf Hpy Hord.
  assert (Hsup : forallb supported elems = true).
  { rewrite forallb_forall in *. auto using pytree_supported. }
  split.
  - destruct (enumerated_roundtrip "list" elems Hwf Hpy Hord) as (loaded & Hload & Hperm).
    exists loaded. split; [|assumption].
    rewrite roundtrip_encode by assumption. exact Hload.
  - destruct (enumerated_roundtrip "tuple" elems Hwf Hpy Hord) as (loaded & Hload & Hperm).
    exists loaded. split; [|assumption].
    rewrite roundtrip_encode by assumption. exact Hload.
Qed.

Lemma sequence_roundtrip_permutation_witness :
  exists loaded,
    roundtrip [] "/tmp/t.h5" eleven = Ok (PList loaded)
    /\ Permutation loaded (map normalize (map (fun k => PArray (ones k)) (seq 0 11))).
Proof.
  apply (sequence_roundtrip_permutation [] "/tmp/t.h5"
           (map (fun k => PArray (ones k)) (seq 0 11))); reflexivity.
Defined.

(** ** The exceptions of [load] *)



(** ** One node of the file for each node of the tree *)








(** ** The name order of links *)

Lemma ltb_lt x y : (x <? y) = true <-> OrderedTypeEx.String_as_OT.lt x y.
Proof.
  rewrite <- OrderedTypeEx.String_as_OT.cmp_lt.
  unfold String.ltb, OrderedTypeEx.String_as_OT.cmp.
  destruct (String.compare x y); split; congruence.
Qed.

Lemma ltb_trans x y z : (x <? y) = true -> (y <? z) = true -> (x <? z) = true.
Proof.
  rewrite !ltb_lt. apply OrderedTypeEx.String_as_OT.lt_trans.
Qed.

Lemma ltb_irrefl x : (x <? x) = false.
Proof.
  destruct (x <? x) eqn:E; [|reflexivity].
  pose proof (ltb_asym _ _ E). congruence.
Qed.

Lemma ltb_total x y : x <> y -> (x <? y) = true \/ (y <? x) = true.
Proof.
  intros Hne. unfold String.ltb. rewrite (String.compare_antisym y x).
  destruct (String.compare x y) eqn:E; simpl; auto.
  apply String.compare_eq_iff in E. congruence.
Qed.

Lemma increasing_cons x rest :
  increasing (x :: rest) = true
  <-> (forall y, In y rest -> (x <? y) = true) /\ increasing rest = true.
Proof.
  simpl. rewrite andb_true_iff, forallb_forall. tauto.
Qed.

Lemma increasing_link_insert {A} n (a : A) l :
  increasing (keys l) = true -> ~ In n (keys l) ->
  increasing (keys (link_insert n a l)) = true.
Proof.
  induction l as [|[k b] rest IH]; intros Hinc Hnotin; [reflexivity|].
  change (keys ((k, b) :: rest)) with (k :: keys rest) in *.
  apply increasing_cons in Hinc as [Hk Hrest]. simpl link_insert.
  destruct (n <? k) eqn:Hnk.
  - change (increasing (n :: k :: keys rest) = true).
    apply increasing_cons. split.
    + intros y [<-|Hy]; [assumption|]. eapply ltb_trans; eauto.
    + apply increasing_cons. auto.
  - change (increasing (k :: keys (link_insert n a rest)) = true).
    apply increasing_cons. split.
    + intros y Hy. apply keys_link_insert in Hy as [->|Hy]; [|auto].
      destruct (@ltb_total k n) as [H|H]; [|assumption|congruence].
      intros ->. apply Hnotin. now left.
    + apply IH; [assumption|]. intros Hin. apply Hnotin. now right.
Qed.

Lemma increasing_index_links_from {A} (pairs links : list (string * A)) :
  NoDup (keys pairs) -> increasing (keys links) = true ->
  (forall n, In n (keys pairs) -> ~ In n (keys links)) ->
  increasing (keys (index_links pairs links)) = true.
Proof.
  unfold index_links. revert links.
  induction pairs as [|[k a] rest IH]; intros links Hnd Hinc Hfresh; simpl; [assumption|].
  inversion Hnd as [|? ? Hnotin Hrest]; subst.
  apply IH; [assumption | |].
  - apply increasing_link_insert; [assumption | apply Hfresh; now left].
  - intros n Hn Hin. apply keys_link_insert in Hin as [->|Hin]; [contradiction|].
    apply (Hfresh n); [now right | assumption].
Qed.

Lemma increasing_index_links {A} (pairs : list (string * A)) :
  NoDup (keys pairs) -> increasing (keys (index_links pairs [])) = true.
Proof.
  intros Hnd. apply increasing_index_links_from; auto.
Qed.

Lemma increasing_Permutation_eq {A} (l l' : list (string * A)) :
  Permutation l l' ->
  increasing (keys l) = true -> increasing (keys l') = true -> l = l'.
Proof.
  revert l'. induction l as [|[k a] rest IH]; intros l' Hperm Hinc Hinc'.
  - apply Permutation_nil in Hperm. now subst.
  - destruct l' as [|[k' a'] rest']; [apply Permutation_sym, Permutation_nil in Hperm; discriminate|].
    change (keys ((k, a) :: rest)) with (k :: keys rest) in Hinc.
    change (keys ((k', a') :: rest')) with (k' :: keys rest') in Hinc'.
    apply increasing_cons in Hinc as [Hk Hrest], Hinc' as [Hk' Hrest'].
    assert (Hhead : (k, a) = (k', a')).
    { assert (Hin : In (k, a) ((k', a') :: rest'))
        by (apply (Permutation_in _ Hperm); now left).
      assert (Hin' : In (k', a') ((k, a) :: rest))
        by (apply (Permutation_in _ (Permutation_sym Hperm)); now left).
      destruct Hin as [Heq|Hin]; [now symmetry|].
      destruct Hin' as [Heq|Hin']; [assumption|].
      exfalso.
      assert (H1 : (k' <? k) = true) by (apply Hk'; unfold keys; now apply (in_map fst _ (k, a))).
      assert (H2 : (k <? k') = true) by (apply Hk; unfold keys; now apply (in_map fst _ (k', a'))).
      pose proof (ltb_asym _ _ H1). congruence. }
    injection Hhead as <- <-. f_equal.
    apply IH; [now apply Permutation_cons_inv in Hperm | assumption | assumption].
Qed.

Lemma index_links_Permutation {A} (pairs pairs' : list (string * A)) :
  NoDup (keys pairs) -> Permutation pairs pairs' ->
  index_links pairs [] = index_links pairs' [].
Proof.
  intros Hnd Hperm.
  assert (Hnd' : NoDup (keys pairs')).
  { eapply Permutation_NoDup; [|exact Hnd]. unfold keys. now apply Permutation_map. }
  apply increasing_Permutation_eq; auto using increasing_index_links.
  pose proof (Permutation_index_links pairs []) as H1.
  pose proof (Permutation_index_links pairs' []) as H2.
  rewrite List.app_nil_r in H1, H2.
  now rewrite H1, H2.
Qed.

(** X9: the file that [save] writes for a dict does not depend on the order
    in which the items were put into the dict: two dicts with the same
    items leave the same files, and load back as the same tree. *)
Theorem dict_order_irrelevant fs filepath c items items' :
  wf (PDict c items) = true -> snd (save fs filepath (PDict c items)) = None ->
  Permutation items items' ->
  save fs filepath (PDict c items') = save fs filepath (PDict c items)
  /\ roundtrip fs filepath (PDict c items') = roundtrip fs filepath (PDict c items).
Proof.
  intros Hwf Hnone Hperm.
  pose proof (save_accepts fs filepath _ Hwf Hnone) as Hsup.
  assert (Hkeys : Permutation (keys items) (keys items'))
    by (unfold keys; now apply Permutation_map).
  assert (Hwf' : wf (PDict c items') = true).
  { simpl in *. apply andb_true_iff in Hwf as [Hwf Hsub].
    apply andb_true_iff in Hwf as [Hplain Hnd].
    rewrite <- (forallb_Permutation _ Hkeys), Hplain.
    rewrite <- (forallb_Permutation _ Hperm), Hsub.
    apply nodupb_NoDup in Hnd. apply (Permutation_NoDup Hkeys) in Hnd.
    apply nodupb_NoDup in Hnd. now rewrite Hnd. }
  assert (Hsup' : supported (PDict c items') = true).
  { simpl in *. now rewrite <- (forallb_Permutation _ Hperm). }
  assert (Henc : encode (PDict c items') = encode (PDict c items)).
  { simpl. f_equal. symmetry. apply index_links_Permutation.
    - change (map (fun kv => (fst kv, encode (snd kv))) items) with (map_snd encode items).
      rewrite keys_map_snd. simpl in Hwf.
      apply andb_true_iff in Hwf as [Hwf _]. apply andb_true_iff in Hwf as [_ Hnd].
      now apply nodupb_NoDup.
    - now apply Permutation_map. }
  split.
  - now rewrite !save_supported, Henc by assumption.
  - now rewrite !roundtrip_encode, Henc by assumption.
Qed.

Lemma dict_order_irrelevant_witness :
  save [] "/tmp/t.h5" (PDict "dict" [("b", PArray one); ("a", PArray two)])
  = save [] "/tmp/t.h5" (PDict "dict" [("a", PArray two); ("b", PArray one)]).
Proof.
  apply (@dict_order_irrelevant [] "/tmp/t.h5" "dict"
           [("a", PArray two); ("b", PArray one)]
           [("b", PArray one); ("a", PArray two)]);
    try reflexivity.
  apply perm_swap.
Defined.

(** ** What [load] returns *)















(** ** A second round trip *)

Lemma forallb_index_links {A} (p : string * A -> bool) (pairs : list (string * A)) :
  forallb p (index_links pairs []) = forallb p pairs.
Proof.
  apply forallb_Permutation.
  rewrite <- (List.app_nil_r pairs) at 2. apply Permutation_index_links.
Qed.

Lemma forallb_mapped {A B} (p : B -> bool) (f : A -> B) (l : list A) :
  forallb p (map f l) = forallb (fun x => p (f x)) l.
Proof. induction l as [|x rest IH]; simpl; [reflexivity | now rewrite IH]. Qed.

Lemma forallb_map_snd {A B} (p : B -> bool) (f : A -> B) (l : list (string * A)) :
  forallb (fun kv => p (snd kv)) (map_snd f l) = forallb (fun kv => p (f (snd kv))) l.
Proof. unfold map_snd. now rewrite forallb_mapped. Qed.

Lemma forallb_Forall_impl {A} (p q : A -> bool) (l : list A) :
  Forall (fun x => p x = true -> q x = true) l ->
  forallb p l = true -> forallb q l = true.
Proof.
  induction 1 as [|x rest Hx _ IH]; simpl; [reflexivity|].
  intros H. apply andb_true_iff in H as [? ?]. apply andb_true_iff. auto.
Qed.

Lemma keys_normalized (items : list (string * pyval)) :
  Permutation (keys (index_links (map_snd normalize items) [])) (keys items).
Proof. now rewrite Permutation_keys_index_links, keys_map_snd. Qed.

Lemma nodupb_Permutation l l' : Permutation l l' -> nodupb l = nodupb l'.
Proof.
  intros Hperm. destruct (nodupb l) eqn:E, (nodupb l') eqn:E'; try reflexivity.
  - apply nodupb_NoDup in E. apply (Permutation_NoDup Hperm), nodupb_NoDup in E. congruence.
  - apply nodupb_NoDup in E'.
    apply (Permutation_NoDup (Permutation_sym Hperm)), nodupb_NoDup in E'. congruence.
Qed.

Lemma wf_normalize tree : wf tree = true -> wf (normalize tree) = true.
Proof.
  induction tree as [data|elems IH|elems IH|n fields IH|c items IH|n]
    using pyval_nested_ind; simpl; intros Hwf; try reflexivity.
  - rewrite forallb_mapped. eapply forallb_Forall_impl; eassumption.
  - rewrite forallb_mapped. eapply forallb_Forall_impl; eassumption.
  - apply andb_true_iff in Hwf as [Hnames Hsub].
    change (map (fun kv => (fst kv, normalize (snd kv))) fields)
      with (map_snd normalize fields).
    rewrite keys_map_snd, Hnames, forallb_map_snd. simpl.
    eapply forallb_Forall_impl; [|exact Hsub]. exact IH.
  - apply andb_true_iff in Hwf as [Hnames Hsub].
    apply andb_true_iff in Hnames as [Hplain Hnd].
    change (map (fun kv => (fst kv, normalize (snd kv))) items)
      with (map_snd normalize items).
    rewrite (forallb_Permutation _ (keys_normalized items)), Hplain.
    rewrite (nodupb_Permutation (keys_normalized items)), Hnd.
    rewrite forallb_index_links, forallb_map_snd. simpl.
    eapply forallb_Forall_impl; [|exact Hsub]. exact IH.
Qed.

Lemma pytree_normalize tree : pytree tree = true -> pytree (normalize tree) = true.
Proof.
  induction tree as [data|elems IH|elems IH|n fields IH|c items IH|n]
    using pyval_nested_ind; simpl; intros Hpy; try reflexivity; try discriminate.
  - rewrite forallb_mapped. eapply forallb_Forall_impl; eassumption.
  - rewrite forallb_mapped. eapply forallb_Forall_impl; eassumption.
  - apply andb_true_iff in Hpy as [Hnames Hsub].
    change (map (fun kv => (fst kv, normalize (snd kv))) fields)
      with (map_snd normalize fields).
    rewrite keys_map_snd, Hnames, forallb_map_snd. simpl.
    eapply forallb_Forall_impl; [|exact Hsub]. exact IH.
  - apply andb_true_iff in Hpy as [Hc Hsub]. rewrite Hc. simpl.
    change (map (fun kv => (fst kv, normalize (snd kv))) items)
      with (map_snd normalize items).
    rewrite forallb_index_links, forallb_map_snd.
    eapply forallb_Forall_impl; [|exact Hsub]. exact IH.
Qed.

Lemma name_ordered_normalize tree :
  name_ordered tree = true -> name_ordered (normalize tree) = true.
Proof.
  induction tree as [data|elems IH|elems IH|n fields IH|c items IH|n]
    using pyval_nested_ind; simpl; intros Hord; try reflexivity.
  - apply andb_true_iff in Hord as [Hlen Hsub].
    rewrite length_map, Hlen, forallb_mapped. simpl.
    eapply forallb_Forall_impl; eassumption.
  - apply andb_true_iff in Hord as [Hlen Hsub].
    rewrite length_map, Hlen, forallb_mapped. simpl.
    eapply forallb_Forall_impl; eassumption.
  - apply andb_true_iff in Hord as [Hinc Hsub].
    change (map (fun kv => (fst kv, normalize (snd kv))) fields)
      with (map_snd normalize fields).
    rewrite keys_map_snd, Hinc, forallb_map_snd. simpl.
    eapply forallb_Forall_impl; [|exact Hsub]. exact IH.
  - change (map (fun kv => (fst kv, normalize (snd kv))) items)
      with (map_snd normalize items).
    rewrite forallb_index_links, forallb_map_snd.
    eapply forallb_Forall_impl; [|exact Hord]. exact IH.
Qed.

Lemma map_snd_fixed {A} (f : A -> A) (l : list (string * A)) :
  (forall x, In x l -> f (snd x) = snd x) -> map_snd f l = l.
Proof.
  intros H. unfold map_snd. apply map_id_Forall, Forall_forall.
  intros [k a] Hin. simpl. f_equal. exact (H (k, a) Hin).
Qed.

Lemma normalize_idempotent tree :
  wf tree = true -> normalize (normalize tree) = normalize tree.
Proof.
  induction tree as [data|elems IH|elems IH|n fields IH|c items IH|n]
    using pyval_nested_ind; simpl; intros Hwf; try reflexivity.
  - f_equal. rewrite map_map. apply map_ext_in. intros v Hin.
    rewrite Forall_forall in IH. rewrite forallb_forall in Hwf. auto.
  - f_equal. rewrite map_map. apply map_ext_in. intros v Hin.
    rewrite Forall_forall in IH. rewrite forallb_forall in Hwf. auto.
  - apply andb_true_iff in Hwf as [_ Hsub]. f_equal.
    rewrite map_map. apply map_ext_in. intros [k v] Hin. simpl.
    rewrite Forall_forall in IH. rewrite forallb_forall in Hsub.
    f_equal. apply (IH (k, v) Hin), (Hsub (k, v) Hin).
  - apply andb_true_iff in Hwf as [Hnames Hsub].
    apply andb_true_iff in Hnames as [_ Hnd]. apply nodupb_NoDup in Hnd.
    rewrite Forall_forall in IH. rewrite forallb_forall in Hsub. f_equal.
    change (map (fun kv => (fst kv, normalize (snd kv)))
              (index_links (map (fun kv => (fst kv, normalize (snd kv))) items) []))
      with (map_snd normalize (index_links (map_snd normalize items) [])).
    rewrite map_snd_fixed.
    + apply index_links_sorted, increasing_index_links.
      change (NoDup (keys (map_snd normalize items))). now rewrite keys_map_snd.
    + intros x Hx. apply (proj1 (In_index_links _ _)) in Hx.
      apply in_map_iff in Hx as ([k v] & <- & Hin). simpl.
      apply (IH (k, v) Hin), (Hsub (k, v) Hin).
Qed.

(** X11: for a name-ordered tree, the tree that [load] returns after [save]
    is a fixed point of the round trip: saved and loaded once more, it comes
    back exactly as it is, the order of dict items included. *)
Theorem roundtrip_fixed_point fs filepath tree tree' :
  wf tree = true -> pytree tree = true -> name_ordered tree = true ->
  roundtrip fs filepath tree = Ok tree' ->
  roundtrip fs filepath tree' = Ok tree'.
Proof.
  intros Hwf Hpy Hord. rewrite roundtrip_normalize by assumption.
  intros [= <-].
  rewrite roundtrip_normalize
    by auto using wf_normalize, pytree_normalize, name_ordered_normalize.
  f_equal. now apply normalize_idempotent.
Qed.

Lemma roundtrip_fixed_point_witness :
  roundtrip [] "/tmp/t.h5" (normalize example_tree) = Ok (normalize example_tree).
Proof.
  apply (@roundtrip_fixed_point [] "/tmp/t.h5" example_tree (normalize example_tree));
    reflexivity.
Defined.

(** ** Namedtuples with fields in any order *)

(** X12: a namedtuple whose children load back comes back as a namedtuple
    of the same type name in which every field still has its value; the
    fields come in the order of their names, whatever the order of their
    declaration. *)
Theorem namedtuple_fields_keep_values fs filepath n fields :
  wf (PNamedTuple n fields) = true -> pytree (PNamedTuple n fields) = true ->
  forallb (fun kv => name_ordered (snd kv)) fields = true ->
  exists loaded,
    roundtrip fs filepath (PNamedTuple n fields) = Ok (PNamedTuple n loaded)
    /\ Permutation loaded (map_snd normalize fields)
    /\ increasing (keys loaded) = true.
Proof.
  intros Hwf0 Hpy Hord.
  pose proof (pytree_supported _ Hpy) as Hsup.
  pose proof Hwf0 as Hwf. simpl in Hwf, Hpy.
  apply andb_true_iff in Hwf as [Hnames Hwfsub].
  apply andb_true_iff in Hnames as [_ Hnd]. apply nodupb_NoDup in Hnd.
  apply andb_true_iff in Hpy as [Hpy Hpysub]. apply andb_true_iff in Hpy as [Hpy Hfields].
  apply andb_true_iff in Hpy as [Hty Hres]. apply negb_true_iff in Hres.
  rewrite forallb_forall in Hwfsub, Hpysub, Hord.
  exists (map_snd normalize (index_links fields [])). split; [|split].
  - rewrite roundtrip_encode by assumption.
    simpl encode.
    change (map (fun kv => (fst kv, encode (snd kv))) fields) with (map_snd encode fields).
    rewrite index_links_map_snd_nil.
    apply _loadtree_written_namedtuple; try assumption.
    + apply loads_to_map. intros kv Hin. apply (proj1 (In_index_links _ _)) in Hin.
      apply _loadtree_encode; auto.
    + now rewrite (forallb_Permutation _ (Permutation_keys_index_links fields)).
    + eapply Permutation_NoDup; [|exact Hnd].
      symmetry. apply Permutation_keys_index_links.
  - apply Permutation_map.
    rewrite <- (List.app_nil_r fields) at 2. apply Permutation_index_links.
  - rewrite keys_map_snd. now apply increasing_index_links.
Qed.

Lemma namedtuple_fields_keep_values_witness :
  exists loaded,
    roundtrip [] "/tmp/t.h5" (PNamedTuple "Point" [("y", PArray two); ("x", PArray one)])
    = Ok (PNamedTuple "Point" loaded)
    /\ Permutation loaded (map_snd normalize [("y", PArray two); ("x", PArray one)])
    /\ increasing (keys loaded) = true.
Proof.
  apply (@namedtuple_fields_keep_values [] "/tmp/t.h5" "Point"
           [("y", PArray two); ("x", PArray one)]); reflexivity.
Defined.
